(** * helloworld/debug.hpp: leveled logging and assertion macros

    A shallow embedding of [src/include/helloworld/debug.hpp].  The header
    only defines preprocessor macros, so each macro becomes a function that
    receives its operands as unevaluated computations (macro arguments are
    substituted textually, that is, passed by name) and returns the
    computation the expansion denotes. *)

From Stdlib Require Import String Ascii List ZArith NArith Bool Lia DecimalString.
Import ListNotations.
Local Open Scope string_scope.

(** ** The C library primitives the header consumes *)

(** The line feed, written ["\n"] in the C source. *)
Definition LF : string := String (ascii_of_nat 10) EmptyString.

(** Values that can be passed through the variadic part of [fprintf]:
    [VInt z] is the [int] of value [z], [VStr s] a [const char *] pointing
    to a C string whose characters, up to its terminating NUL, are [s]. *)
Inductive Value : Type :=
| VInt (z : Z)
| VStr (s : string).

(** Decimal rendering of an [int], as [%d] prints it. *)
Definition decimal (z : Z) : string := NilZero.string_of_int (Z.to_int z).

(** One conversion specification.  [c] is the conversion character that
    follows the percent sign, [k] formats the rest of the template.  A
    missing or ill-typed argument and an unknown conversion give [None]:
    the call has no defined behaviour in C, or lies outside the conversions
    covered here ([%d], [%i], [%s], [%c] and [%%]). *)
Definition conversion (c : ascii) (k : list Value -> option string)
    (args : list Value) : option string :=
  if Ascii.eqb c "%" then option_map (String "%") (k args)
  else if Ascii.eqb c "d" || Ascii.eqb c "i" then
    match args with
    | VInt z :: args' => option_map (append (decimal z)) (k args')
    | _ => None
    end
  else if Ascii.eqb c "s" then
    match args with
    | VStr s :: args' => option_map (append s) (k args')
    | _ => None
    end
  else if Ascii.eqb c "c" then
    match args with
    | VInt z :: args' =>
        option_map (String (ascii_of_N (Z.to_N (z mod 256)))) (k args')
    | _ => None
    end
  else None.

(** The text a [printf]-family call produces for a template and the values
    of its arguments.  [f] holds the characters of the string literal that
    is passed as the template; like every C string the template ends at
    the first NUL character among them, and what the literal holds after
    it is never read.  [pct] records that the previous character was an
    unfinished percent sign.  Arguments left over when the template is
    exhausted are ignored, as in C. *)
Fixpoint format_from (pct : bool) (f : string) (args : list Value)
    : option string :=
  match f with
  | EmptyString => if pct then None else Some EmptyString
  | String c r =>
      if Ascii.eqb c "000" then (if pct then None else Some EmptyString)
      else if pct then conversion c (format_from false r) args
      else if Ascii.eqb c "%" then format_from true r args
      else option_map (String c) (format_from false r args)
  end.

Definition format (f : string) (args : list Value) : option string :=
  format_from false f args.

(** The two standard streams. *)
Inductive Stream : Type := stdout | stderr.

(** ** Program states and computations *)

Section Model.

Context {Mem : Type}.

(** The observable state of the process: the program's own variables and
    what has been written so far to each of the two streams. *)
Record World : Type := mkWorld {
  mem : Mem;
  out : string;
  err : string
}.

(** How a computation can end: it returns a value, the process is ended
    abnormally by [std::terminate] (whose default handler calls [abort]),
    or nothing is known about it: the behaviour is undefined in C, or a
    [printf] conversion is used that [conversion] does not cover. *)
Inductive Outcome (A : Type) : Type :=
| Normal (a : A) (w : World)
| Terminated (w : World)
| Undefined.

Definition Prog (A : Type) : Type := World -> Outcome A.

Definition ret {A : Type} (a : A) : Prog A := fun w => Normal A a w.

Definition bind {A B : Type} (p : Prog A) (k : A -> Prog B) : Prog B :=
  fun w =>
    match p w with
    | Normal _ a w' => k a w'
    | Terminated _ w' => Terminated B w'
    | Undefined _ => Undefined B
    end.

End Model.

Arguments World : clear implicits.
Arguments Outcome : clear implicits.
Arguments Prog : clear implicits.
Arguments Normal {Mem A} a w.
Arguments Terminated {Mem A} w.
Arguments Undefined {Mem A}.

Notation "x <- p ;; k" := (bind p (fun x => k))
  (at level 61, p at next level, right associativity).
Notation "p ;; k" := (bind p (fun _ => k))
  (at level 61, right associativity).

(** ** Evaluation of a variadic call *)

(** C++ does not fix the order in which the arguments of a call are
    evaluated; the two orders that compilers use are covered. *)
Inductive ArgOrder : Type := LeftToRight | RightToLeft.

(** The source position the preprocessor substitutes for [__FILE__] and
    [__LINE__] at a macro invocation. *)
Record CallSite : Type := mkCallSite {
  __FILE__ : string;
  __LINE__ : N
}.

Section Primitives.

Context {Mem : Type}.
Variable order : ArgOrder.

(** Evaluates every argument expression of a call, each one once. *)
Fixpoint eval_args (args : list (Prog Mem Value)) : Prog Mem (list Value) :=
  match args with
  | [] => ret []
  | a :: rest =>
      match order with
      | LeftToRight => v <- a ;; vs <- eval_args rest ;; ret (v :: vs)
      | RightToLeft => vs <- eval_args rest ;; v <- a ;; ret (v :: vs)
      end
  end.

(** Appends text to a stream. *)
Definition write (s : Stream) (text : string) : Prog Mem unit :=
  fun w =>
    match s with
    | stdout => Normal tt (mkWorld (mem w) (out w ++ text) (err w))
    | stderr => Normal tt (mkWorld (mem w) (out w) (err w ++ text))
    end.

(** [fprintf(stream, fmt, args...)]: the arguments are evaluated, the text
    is formatted and written, and the number of characters is returned.
    Write errors of the stream are not modelled. *)
Definition fprintf (s : Stream) (fmt : string) (args : list (Prog Mem Value))
    : Prog Mem Z :=
  vs <- eval_args args ;;
  match format fmt vs with
  | Some text => write s text ;; ret (Z.of_nat (String.length text))
  | None => fun _ => Undefined
  end.

(** [std::terminate()] with the default handler: the process is aborted
    and nothing after the call runs.  [Terminated w] holds the state in
    which [std::terminate] was called; what the handler of the C++ runtime
    may print on its own before it aborts is not part of it. *)
Definition terminate {A : Type} : Prog Mem A := fun w => Terminated w.

End Primitives.

(** Modelled from the spec: the macro [unlikely] comes from [common.hpp],
    which is not part of the sources at hand; the spec describes it as a
    compile-time branch hint that is a performance advisory only, so it
    returns the truth value of its argument. *)
Definition unlikely (b : bool) : bool := b.

(** ** The macros of debug.hpp *)

Section Macros.

Context {Mem : Type}.
Variable order : ArgOrder.
Variable site : CallSite.

(** [#define stderr_print(level, M, ...)]: the template is the string
    literal obtained by pasting the prefix, [M] and the line feed; [M]
    holds the characters of the literal the caller wrote, and [level] the
    text of the C string that is passed for [%s]. *)
Definition stderr_print (level : string) (M : string)
    (VA_ARGS : list (Prog Mem Value)) : Prog Mem unit :=
  let __level := level in
  fprintf order stderr
    ("[%s] %s:%d - " ++ M ++ LF)
    (ret (VStr __level)
       :: ret (VStr (__FILE__ site))
       :: ret (VInt (Z.of_N (__LINE__ site)))
       :: VA_ARGS) ;;
  ret tt.

Definition info (M : string) (VA_ARGS : list (Prog Mem Value)) : Prog Mem unit :=
  stderr_print "Info" M VA_ARGS.

Definition warn (M : string) (VA_ARGS : list (Prog Mem Value)) : Prog Mem unit :=
  stderr_print "Warn" M VA_ARGS.

Definition error (M : string) (VA_ARGS : list (Prog Mem Value)) : Prog Mem unit :=
  stderr_print "Error" M VA_ARGS.

Definition panic (M : string) (VA_ARGS : list (Prog Mem Value)) : Prog Mem unit :=
  stderr_print "Panic" M VA_ARGS ;;
  stderr_print "Panic" "Program terminated due to the error above." [] ;;
  terminate.

(** The [if] versions. *)
Definition info_if (cond : Prog Mem bool) (M : string)
    (VA_ARGS : list (Prog Mem Value)) : Prog Mem unit :=
  c <- cond ;; if c then info M VA_ARGS else ret tt.

Definition warn_if (cond : Prog Mem bool) (M : string)
    (VA_ARGS : list (Prog Mem Value)) : Prog Mem unit :=
  c <- cond ;; if c then warn M VA_ARGS else ret tt.

Definition error_if (cond : Prog Mem bool) (M : string)
    (VA_ARGS : list (Prog Mem Value)) : Prog Mem unit :=
  c <- cond ;; if unlikely c then error M VA_ARGS else ret tt.

Definition panic_if (cond : Prog Mem bool) (M : string)
    (VA_ARGS : list (Prog Mem Value)) : Prog Mem unit :=
  c <- cond ;; if unlikely c then panic M VA_ARGS else ret tt.

(** [check(cond, ...)]: the condition is stored in [__cond] first. *)
Definition check (cond : Prog Mem bool) (M : string)
    (VA_ARGS : list (Prog Mem Value)) : Prog Mem unit :=
  __cond <- cond ;;
  if unlikely (negb __cond) then panic M VA_ARGS else ret tt.

(** The [d]-prefixed family.  [NDEBUG] tells whether the preprocessor
    symbol of that name is defined; under [#ifndef NDEBUG] each macro
    forwards to its base macro, otherwise its expansion is empty. *)
Variable NDEBUG : bool.

Definition dcheck (cond : Prog Mem bool) (M : string)
    (VA_ARGS : list (Prog Mem Value)) : Prog Mem unit :=
  if NDEBUG then ret tt else check cond M VA_ARGS.

Definition dinfo (M : string) (VA_ARGS : list (Prog Mem Value)) : Prog Mem unit :=
  if NDEBUG then ret tt else info M VA_ARGS.

Definition dwarn (M : string) (VA_ARGS : list (Prog Mem Value)) : Prog Mem unit :=
  if NDEBUG then ret tt else warn M VA_ARGS.

Definition derror (M : string) (VA_ARGS : list (Prog Mem Value)) : Prog Mem unit :=
  if NDEBUG then ret tt else error M VA_ARGS.

Definition dpanic (M : string) (VA_ARGS : list (Prog Mem Value)) : Prog Mem unit :=
  if NDEBUG then ret tt else panic M VA_ARGS.

Definition dinfo_if (cond : Prog Mem bool) (M : string)
    (VA_ARGS : list (Prog Mem Value)) : Prog Mem unit :=
  if NDEBUG then ret tt else info_if cond M VA_ARGS.

Definition dwarn_if (cond : Prog Mem bool) (M : string)
    (VA_ARGS : list (Prog Mem Value)) : Prog Mem unit :=
  if NDEBUG then ret tt else warn_if cond M VA_ARGS.

Definition derror_if (cond : Prog Mem bool) (M : string)
    (VA_ARGS : list (Prog Mem Value)) : Prog Mem unit :=
  if NDEBUG then ret tt else error_if cond M VA_ARGS.

Definition dpanic_if (cond : Prog Mem bool) (M : string)
    (VA_ARGS : list (Prog Mem Value)) : Prog Mem unit :=
  if NDEBUG then ret tt else panic_if cond M VA_ARGS.

End Macros.

(** ** Vocabulary of the specification *)

(** The four severity tiers and the label each one prints. *)
Inductive Level : Type := Info | Warn | Error | Panic.

Definition label (l : Level) : string :=
  match l with
  | Info => "Info"
  | Warn => "Warn"
  | Error => "Error"
  | Panic => "Panic"
  end.

(** The output format [[<Level>] <file>:<line> - <message>\n]. *)
Definition record (l : Level) (site : CallSite) (message : string) : string :=
  "[" ++ label l ++ "] " ++ __FILE__ site ++ ":"
      ++ decimal (Z.of_N (__LINE__ site)) ++ " - " ++ message ++ LF.

(** Whether a string literal holds a NUL character. *)
Fixpoint has_nul (s : string) : bool :=
  match s with
  | EmptyString => false
  | String c r => Ascii.eqb c "000" || has_nul r
  end.

(** What one call writes for the template [M] once its conversions have
    produced [message]: the record, or, when the literal [M] holds a NUL
    character, the record cut off before its line feed, since the
    template ends there. *)
Definition entry (l : Level) (site : CallSite) (M message : string) : string :=
  "[" ++ label l ++ "] " ++ __FILE__ site ++ ":"
      ++ decimal (Z.of_N (__LINE__ site)) ++ " - " ++ message
      ++ (if has_nul M then "" else LF).

(** The fixed second message of [panic]. *)
Definition epitaph : string := "Program terminated due to the error above.".



(** The text of several records written one after the other. *)
Definition join (records : list string) : string :=
  fold_right append "" records.


Section Vocabulary.

Context {Mem : Type}.

(** The state after more text has reached the diagnostic stream. *)
Definition logged (text : string) (w : World Mem) : World Mem :=
  mkWorld (mem w) (out w) (err w ++ text).

(** An operand without side effects: it yields [v] and leaves the state
    as it found it. *)
Definition pure {A : Type} (p : Prog Mem A) (v : A) : Prop :=
  forall w, p w = Normal v w.

(** [once order args w vs w']: starting in [w], every argument expression
    runs exactly one time, in the given order, the [i]-th one yields the
    [i]-th value of [vs], and the state reached in the end is [w']. *)
Inductive once : ArgOrder -> list (Prog Mem Value) -> World Mem
    -> list Value -> World Mem -> Prop :=
| once_nil : forall o w, once o [] w [] w
| once_ltr : forall a rest w v w1 vs w2,
    a w = Normal v w1 ->
    once LeftToRight rest w1 vs w2 ->
    once LeftToRight (a :: rest) w (v :: vs) w2
| once_rtl : forall a rest w v w1 vs w2,
    once RightToLeft rest w vs w1 ->
    a w1 = Normal v w2 ->
    once RightToLeft (a :: rest) w (v :: vs) w2.

(** A computation that behaves in every state as [result] says: it is
    either undefined everywhere, or returns everywhere after appending the
    same text to the diagnostic stream and changing nothing else. *)
Definition uniform (p : Prog Mem unit) (result : option string) : Prop :=
  forall w,
    p w = match result with
          | Some text => Normal tt (logged text w)
          | None => Undefined
          end.

End Vocabulary.

(** The operations the header exposes. *)
Inductive Operation : Type :=
| op_info | op_warn | op_error | op_panic
| op_info_if | op_warn_if | op_error_if | op_panic_if
| op_check
| op_dcheck | op_dinfo | op_dwarn | op_derror | op_dpanic
| op_dinfo_if | op_dwarn_if | op_derror_if | op_dpanic_if.

(** An invocation of an operation; those without a condition ignore
    [cond]. *)
Definition invoke {Mem : Type} (order : ArgOrder) (site : CallSite)
    (NDEBUG : bool) (op : Operation) (cond : Prog Mem bool) (M : string)
    (VA_ARGS : list (Prog Mem Value)) : Prog Mem unit :=
  match op with
  | op_info => info order site M VA_ARGS
  | op_warn => warn order site M VA_ARGS
  | op_error => error order site M VA_ARGS
  | op_panic => panic order site M VA_ARGS
  | op_info_if => info_if order site cond M VA_ARGS
  | op_warn_if => warn_if order site cond M VA_ARGS
  | op_error_if => error_if order site cond M VA_ARGS
  | op_panic_if => panic_if order site cond M VA_ARGS
  | op_check => check order site cond M VA_ARGS
  | op_dcheck => dcheck order site NDEBUG cond M VA_ARGS
  | op_dinfo => dinfo order site NDEBUG M VA_ARGS
  | op_dwarn => dwarn order site NDEBUG M VA_ARGS
  | op_derror => derror order site NDEBUG M VA_ARGS
  | op_dpanic => dpanic order site NDEBUG M VA_ARGS
  | op_dinfo_if => dinfo_if order site NDEBUG cond M VA_ARGS
  | op_dwarn_if => dwarn_if order site NDEBUG cond M VA_ARGS
  | op_derror_if => derror_if order site NDEBUG cond M VA_ARGS
  | op_dpanic_if => dpanic_if order site NDEBUG cond M VA_ARGS
  end.

(** The non-fatal operations. *)
Definition non_fatal (op : Operation) : bool :=
  match op with
  | op_info | op_warn | op_error
  | op_info_if | op_warn_if | op_error_if
  | op_dinfo | op_dwarn | op_derror
  | op_dinfo_if | op_dwarn_if | op_derror_if => true
  | _ => false
  end.

(** The severity under which an operation prints. *)
Definition level_of (op : Operation) : Level :=
  match op with
  | op_info | op_info_if | op_dinfo | op_dinfo_if => Info
  | op_warn | op_warn_if | op_dwarn | op_dwarn_if => Warn
  | op_error | op_error_if | op_derror | op_derror_if => Error
  | op_panic | op_panic_if | op_check
  | op_dpanic | op_dpanic_if | op_dcheck => Panic
  end.

(** The operations of the debug-gated family. *)
Definition gated (op : Operation) : bool :=
  match op with
  | op_dcheck | op_dinfo | op_dwarn | op_derror | op_dpanic
  | op_dinfo_if | op_dwarn_if | op_derror_if | op_dpanic_if => true
  | _ => false
  end.

(** Whether an invocation evaluates its condition: the operations that
    take one do, unless they are compiled away. *)
Definition tests_condition (NDEBUG : bool) (op : Operation) : bool :=
  match op with
  | op_info_if | op_warn_if | op_error_if | op_panic_if | op_check => true
  | op_dinfo_if | op_dwarn_if | op_derror_if | op_dpanic_if | op_dcheck =>
      negb NDEBUG
  | _ => false
  end.

(** Whether an invocation goes on to print its message, [c] being the
    value of its condition: always for the base operations, on a true
    condition for the [_if] forms, on a false one for [check], and never
    for an operation that is compiled away. *)
Definition runs_message (NDEBUG : bool) (op : Operation) (c : bool) : bool :=
  negb (gated op && NDEBUG)
  && match op with
     | op_info_if | op_warn_if | op_error_if | op_panic_if
     | op_dinfo_if | op_dwarn_if | op_derror_if | op_dpanic_if => c
     | op_check | op_dcheck => negb c
     | _ => true
     end.

(** The records an invocation puts on the diagnostic stream. *)
Definition emitted (NDEBUG : bool) (op : Operation) (c : bool)
    (site : CallSite) (M message : string) : list string :=
  if runs_message NDEBUG op c then
    entry (level_of op) site M message
      :: (if non_fatal op then [] else [record Panic site epitaph])
  else [].

(** ** Sample operands

    A program whose only variable is a counter: [bump v] is an expression
    such as [(++n, v)], and [bump_test b] a condition such as
    [(++n, b)]. *)
Definition bump (v : Value) : Prog nat Value :=
  fun w => Normal v (mkWorld (S (mem w)) (out w) (err w)).

Definition bump_test (b : bool) : Prog nat bool :=
  fun w => Normal b (mkWorld (S (mem w)) (out w) (err w)).

Definition start : World nat := mkWorld 0 "" "".

(** The expression [n], which reads the counter. *)
Definition counter : Prog nat Value :=
  fun w => Normal (VInt (Z.of_nat (mem w))) w.

(** A program with two counters, one for each of two argument
    expressions. *)
Definition bump_fst (v : Value) : Prog (nat * nat) Value :=
  fun w => Normal v (mkWorld (S (fst (mem w)), snd (mem w)) (out w) (err w)).

Definition bump_snd (v : Value) : Prog (nat * nat) Value :=
  fun w => Normal v (mkWorld (fst (mem w), S (snd (mem w))) (out w) (err w)).

Definition start2 : World (nat * nat) := mkWorld (0, 0) "" "".

Definition main_cpp : CallSite := mkCallSite "main.cpp" 7.

(** ** Further vocabulary *)



(** A template without any percent sign. *)
Fixpoint plain (s : string) : bool :=
  match s with
  | EmptyString => true
  | String c r => negb (Ascii.eqb c "%") && plain r
  end.

Section Operands.

Context {Mem : Type}.

(** The condition [!(cond)]. *)
Definition negate (cond : Prog Mem bool) : Prog Mem bool :=
  b <- cond ;; ret (negb b).

(** A computation that leaves the observation [obs] of the state as it
    was, whenever it ends in a state at all. *)
Definition keeps {X A : Type} (obs : World Mem -> X) (p : Prog Mem A) : Prop :=
  forall w,
    match p w with
    | Normal _ w' | Terminated w' => obs w' = obs w
    | Undefined => True
    end.

(** An operand that may read the state but does not change it, and
    always yields a value. *)
Definition readonly {A : Type} (p : Prog Mem A) : Prop :=
  forall w, exists v, p w = Normal v w.


(** A computation that never ends the process. *)
Definition harmless {A : Type} (p : Prog Mem A) : Prop :=
  forall w w', p w <> Terminated w'.

End Operands.

(** An argument expression that never yields a value, such as a call to
    a function that panics. *)
Definition failing : Prog nat Value :=
  panic LeftToRight (mkCallSite "util.cpp" 3) "inner" [] ;; ret (VInt 0).

(** * Properties *)

(** ** Strings and formatting *)

Lemma append_assoc (a b c : string) : (a ++ b) ++ c = a ++ (b ++ c).
Proof.
  induction a as [|x a IH]; simpl; [reflexivity | now rewrite IH].
Qed.

Lemma append_nil_r (a : string) : a ++ "" = a.
Proof.
  induction a as [|x a IH]; simpl; [reflexivity | now rewrite IH].
Qed.






(** Text pasted after a template is added to the formatted text, unless
    the template holds a NUL character, and a template that cannot be
    formatted stays so. *)
Lemma conversion_suffix (c : ascii) (k k' : list Value -> option string)
    (t : string) :
  (forall args, k' args = option_map (fun s => s ++ t) (k args)) ->
  forall args,
    conversion c k' args = option_map (fun s => s ++ t) (conversion c k args).
Proof.
  intros Hk args. unfold conversion.
  destruct (Ascii.eqb c "%").
  { rewrite Hk. destruct (k args); reflexivity. }
  destruct (Ascii.eqb c "d" || Ascii.eqb c "i").
  { destruct args as [|[z|s] args']; try reflexivity.
    rewrite Hk. destruct (k args'); simpl; [|reflexivity].
    now rewrite append_assoc. }
  destruct (Ascii.eqb c "s").
  { destruct args as [|[z|s] args']; try reflexivity.
    rewrite Hk. destruct (k args'); simpl; [|reflexivity].
    now rewrite append_assoc. }
  destruct (Ascii.eqb c "c"); [|reflexivity].
  destruct args as [|[z|s] args']; try reflexivity.
  rewrite Hk. destruct (k args'); reflexivity.
Qed.

Lemma format_from_line_feed (f : string) :
  forall pct args,
    format_from pct (f ++ LF) args
    = option_map (fun s => s ++ (if has_nul f then "" else LF))
        (format_from pct f args).
Proof.
  induction f as [|c r IH]; intros pct args.
  - destruct pct; reflexivity.
  - simpl. destruct (Ascii.eqb c "000"); simpl.
    + destruct pct; reflexivity.
    + destruct pct.
      * apply conversion_suffix. intros a. apply IH.
      * destruct (Ascii.eqb c "%").
        -- apply IH.
        -- rewrite IH. destruct (format_from false r args); reflexivity.
Qed.

Lemma entry_record (l : Level) (site : CallSite) (M message : string) :
  has_nul M = false -> entry l site M message = record l site message.
Proof.
  intros H. unfold entry, record. rewrite H. reflexivity.
Qed.

(** The fixed prefix of the template prints the level, the file and the
    line, whatever template follows it. *)
Lemma format_prefix (level file : string) (n : Z) (rest : string)
    (vs : list Value) :
  format_from false ("[%s] %s:%d - " ++ rest)
    (VStr level :: VStr file :: VInt n :: vs)
  = option_map
      (fun text => "[" ++ level ++ "] " ++ file ++ ":" ++ decimal n ++ " - " ++ text)
      (format_from false rest vs).
Proof.
  simpl. unfold conversion. simpl.
  destruct (format_from false rest vs); reflexivity.
Qed.

Lemma format_entry (level : string) (site : CallSite) (M : string)
    (vs : list Value) :
  format ("[%s] %s:%d - " ++ M ++ LF)
    (VStr level :: VStr (__FILE__ site) :: VInt (Z.of_N (__LINE__ site)) :: vs)
  = option_map
      (fun message =>
         "[" ++ level ++ "] " ++ __FILE__ site ++ ":"
             ++ decimal (Z.of_N (__LINE__ site)) ++ " - " ++ message
             ++ (if has_nul M then "" else LF))
      (format M vs).
Proof.
  unfold format.
  rewrite format_prefix, format_from_line_feed.
  destruct (format_from false M vs); reflexivity.
Qed.

(** ** Evaluation of operands *)

Section Evaluation.

Context {Mem : Type}.
Variable order : ArgOrder.

Lemma eval_args_ret (v : Value) (args : list (Prog Mem Value)) (w : World Mem) :
  eval_args order (ret v :: args) w
  = match eval_args order args w with
    | Normal vs w' => Normal (v :: vs) w'
    | Terminated w' => Terminated w'
    | Undefined => Undefined
    end.
Proof.
  simpl. destruct order; unfold bind, ret;
    destruct (eval_args _ args w); reflexivity.
Qed.

Lemma once_eval_args (args : list (Prog Mem Value)) :
  forall w vs w',
    once order args w vs w' -> eval_args order args w = Normal vs w'.
Proof.
  intros w vs w' H.
  induction H as [o w | a rest w v w1 vs w2 Ha Hrest IH
                       | a rest w v w1 vs w2 Hrest IH Ha].
  - reflexivity.
  - simpl. unfold bind. rewrite Ha, IH. reflexivity.
  - simpl. unfold bind. rewrite IH, Ha. reflexivity.
Qed.

Lemma eval_args_once (args : list (Prog Mem Value)) :
  forall w vs w',
    eval_args order args w = Normal vs w' -> once order args w vs w'.
Proof.
  induction args as [|a rest IH]; intros w vs w' H.
  - inversion H; subst. constructor.
  - simpl in H. destruct order; unfold bind in H.
    + destruct (a w) as [v w1| |] eqn:Ha; try discriminate.
      destruct (eval_args LeftToRight rest w1) as [vs1 w2| |] eqn:Hr;
        try discriminate.
      inversion H; subst. econstructor; eauto.
    + destruct (eval_args RightToLeft rest w) as [vs1 w1| |] eqn:Hr;
        try discriminate.
      destruct (a w1) as [v w2| |] eqn:Ha; try discriminate.
      inversion H; subst. econstructor; eauto.
Qed.

(** Operands without side effects leave the state alone. *)
Lemma eval_args_pure (args : list (Prog Mem Value)) (vs : list Value) :
  Forall2 pure args vs -> forall w, eval_args order args w = Normal vs w.
Proof.
  induction 1 as [|a v args vs Ha _ IH]; intros w; [reflexivity|].
  simpl. destruct order; unfold bind; rewrite ?Ha, IH, ?Ha; reflexivity.
Qed.

(** ** What one expansion of [stderr_print] does *)

Variable site : CallSite.

Lemma stderr_print_run (level M : string) (args : list (Prog Mem Value))
    (w : World Mem) :
  stderr_print order site level M args w
  = match eval_args order args w with
    | Normal vs w1 =>
        match format M vs with
        | Some message =>
            Normal tt
              (logged ("[" ++ level ++ "] " ++ __FILE__ site ++ ":"
                           ++ decimal (Z.of_N (__LINE__ site)) ++ " - "
                           ++ message ++ (if has_nul M then "" else LF)) w1)
        | None => Undefined
        end
    | Terminated w1 => Terminated w1
    | Undefined => Undefined
    end.
Proof.
  unfold stderr_print, fprintf, bind at 1 2.
  rewrite !eval_args_ret.
  destruct (eval_args order args w) as [vs w1|w1|]; try reflexivity.
  rewrite format_entry.
  destruct (format M vs) as [message|]; reflexivity.
Qed.

Lemma info_run (M : string) (args : list (Prog Mem Value)) (w : World Mem) :
  info order site M args w
  = match eval_args order args w with
    | Normal vs w1 =>
        match format M vs with
        | Some message => Normal tt (logged (entry Info site M message) w1)
        | None => Undefined
        end
    | Terminated w1 => Terminated w1
    | Undefined => Undefined
    end.
Proof. apply stderr_print_run. Qed.

Lemma warn_run (M : string) (args : list (Prog Mem Value)) (w : World Mem) :
  warn order site M args w
  = match eval_args order args w with
    | Normal vs w1 =>
        match format M vs with
        | Some message => Normal tt (logged (entry Warn site M message) w1)
        | None => Undefined
        end
    | Terminated w1 => Terminated w1
    | Undefined => Undefined
    end.
Proof. apply stderr_print_run. Qed.

Lemma error_run (M : string) (args : list (Prog Mem Value)) (w : World Mem) :
  error order site M args w
  = match eval_args order args w with
    | Normal vs w1 =>
        match format M vs with
        | Some message => Normal tt (logged (entry Error site M message) w1)
        | None => Undefined
        end
    | Terminated w1 => Terminated w1
    | Undefined => Undefined
    end.
Proof. apply stderr_print_run. Qed.

Lemma format_epitaph : format epitaph [] = Some epitaph.
Proof. reflexivity. Qed.

Lemma panic_run (M : string) (args : list (Prog Mem Value)) (w : World Mem) :
  panic order site M args w
  = match eval_args order args w with
    | Normal vs w1 =>
        match format M vs with
        | Some message =>
            Terminated
              (logged (record Panic site epitaph)
                 (logged (entry Panic site M message) w1))
        | None => Undefined
        end
    | Terminated w1 => Terminated w1
    | Undefined => Undefined
    end.
Proof.
  unfold panic, bind at 1.
  rewrite stderr_print_run.
  destruct (eval_args order args w) as [vs w1|w1|]; try reflexivity.
  destruct (format M vs) as [message|]; try reflexivity.
  unfold bind. rewrite stderr_print_run. reflexivity.
Qed.

End Evaluation.

(** ** The base operations *)

Lemma logged_logged {Mem : Type} (a b : string) (w : World Mem) :
  logged b (logged a w) = logged (a ++ b) w.
Proof.
  unfold logged. simpl. now rewrite append_assoc.
Qed.







(** ** Assertions and conditional variants *)

(** C3: when its condition evaluates to false, check does from there on
    exactly what panic does with the same message and arguments: the same
    two records and the same abnormal termination. *)
Theorem check_false_is_panic {Mem : Type} (order : ArgOrder)
    (site : CallSite) (cond : Prog Mem bool) (M : string)
    (args : list (Prog Mem Value)) (w w' : World Mem) :
  cond w = Normal false w' ->
  check order site cond M args w = panic order site M args w'.
Proof.
  intros Hcond. unfold check, bind at 1. rewrite Hcond. reflexivity.
Qed.

Lemma check_false_is_panic_witness :
  check LeftToRight main_cpp (bump_test false) "bad state" [] start
  = panic LeftToRight main_cpp "bad state" [] (mkWorld 1 "" "").
Proof.
  apply (check_false_is_panic LeftToRight main_cpp (bump_test false)
           "bad state" [] start (mkWorld 1 "" "")).
  reflexivity.
Defined.

(** C4: when its condition evaluates to true, check writes nothing and
    does not terminate the process: it returns in the very state that one
    evaluation of the condition leaves behind, so the side effects of the
    condition have happened exactly once and the message arguments have
    not been evaluated. *)
Theorem check_true_is_silent {Mem : Type} (order : ArgOrder)
    (site : CallSite) (cond : Prog Mem bool) (M : string)
    (args : list (Prog Mem Value)) (w w' : World Mem) :
  cond w = Normal true w' ->
  check order site cond M args w = Normal tt w'.
Proof.
  intros Hcond. unfold check, bind. rewrite Hcond. reflexivity.
Qed.

Lemma check_true_is_silent_witness :
  check LeftToRight main_cpp (bump_test true) "bad state %d" [bump (VInt 1)]
    start
  = Normal tt (mkWorld 1 "" "").
Proof.
  apply (check_true_is_silent LeftToRight main_cpp (bump_test true)
           "bad state %d" [bump (VInt 1)] start (mkWorld 1 "" "")).
  reflexivity.
Defined.

(** C7: each of info_if, warn_if, error_if and panic_if evaluates its
    condition once; when the condition is true it goes on as the base
    operation does with the remaining arguments, and when it is false it
    returns in the state the condition left behind: no output, no
    termination, and the message arguments are not evaluated. *)
Theorem conditional_variants {Mem : Type} (order : ArgOrder)
    (site : CallSite) (cond : Prog Mem bool) (M : string)
    (args : list (Prog Mem Value)) (w w' : World Mem) (b : bool) :
  cond w = Normal b w' ->
  info_if order site cond M args w
    = (if b then info order site M args w' else Normal tt w')
  /\ warn_if order site cond M args w
    = (if b then warn order site M args w' else Normal tt w')
  /\ error_if order site cond M args w
    = (if b then error order site M args w' else Normal tt w')
  /\ panic_if order site cond M args w
    = (if b then panic order site M args w' else Normal tt w').
Proof.
  intros Hcond.
  unfold info_if, warn_if, error_if, panic_if, unlikely, bind.
  rewrite Hcond. destruct b; repeat split.
Qed.

Lemma conditional_variants_witness :
  info_if RightToLeft main_cpp (bump_test false) "n=%d" [bump (VInt 3)] start
    = Normal tt (mkWorld 1 "" "")
  /\ warn_if RightToLeft main_cpp (bump_test false) "n=%d" [bump (VInt 3)]
       start
    = Normal tt (mkWorld 1 "" "")
  /\ error_if RightToLeft main_cpp (bump_test false) "n=%d" [bump (VInt 3)]
       start
    = Normal tt (mkWorld 1 "" "")
  /\ panic_if RightToLeft main_cpp (bump_test false) "n=%d" [bump (VInt 3)]
       start
    = Normal tt (mkWorld 1 "" "").
Proof.
  apply (conditional_variants RightToLeft main_cpp (bump_test false) "n=%d"
           [bump (VInt 3)] start (mkWorld 1 "" "") false).
  reflexivity.
Defined.

(** ** The debug-gated family *)

(** C5: with NDEBUG defined (release configuration) every d-prefixed
    operation is a no-op: whatever its condition and arguments would do,
    it returns at once in the state it started from, so nothing is
    written, the process is not terminated (not even by dpanic) and no
    operand is evaluated. *)
Theorem release_is_no_op {Mem : Type} (order : ArgOrder) (site : CallSite)
    (cond : Prog Mem bool) (M : string) (args : list (Prog Mem Value))
    (w : World Mem) :
  dinfo order site true M args w = Normal tt w
  /\ dwarn order site true M args w = Normal tt w
  /\ derror order site true M args w = Normal tt w
  /\ dpanic order site true M args w = Normal tt w
  /\ dcheck order site true cond M args w = Normal tt w
  /\ dinfo_if order site true cond M args w = Normal tt w
  /\ dwarn_if order site true cond M args w = Normal tt w
  /\ derror_if order site true cond M args w = Normal tt w
  /\ dpanic_if order site true cond M args w = Normal tt w.
Proof.
  repeat split.
Qed.

(** C6: with NDEBUG not defined (debug configuration) every d-prefixed
    operation is the corresponding base operation: for all operands they
    are the same computation, hence have the same output, the same
    evaluation of operands and the same termination. *)
Theorem debug_is_base_operation {Mem : Type} (order : ArgOrder)
    (site : CallSite) (cond : Prog Mem bool) (M : string)
    (args : list (Prog Mem Value)) :
  dinfo order site false M args = info order site M args
  /\ dwarn order site false M args = warn order site M args
  /\ derror order site false M args = error order site M args
  /\ dpanic order site false M args = panic order site M args
  /\ dcheck order site false cond M args = check order site cond M args
  /\ dinfo_if order site false cond M args = info_if order site cond M args
  /\ dwarn_if order site false cond M args = warn_if order site cond M args
  /\ derror_if order site false cond M args = error_if order site cond M args
  /\ dpanic_if order site false cond M args = panic_if order site cond M args.
Proof.
  repeat split.
Qed.

(** ** Every emitted record is well formed *)

Lemma logged_nil {Mem : Type} (w : World Mem) : logged "" w = w.
Proof.
  destruct w as [m o e]. unfold logged. simpl. now rewrite append_nil_r.
Qed.

Section Emission.

Context {Mem : Type}.
Variable order : ArgOrder.
Variable site : CallSite.
Variable M : string.
Variable args : list (Prog Mem Value).
Variables (w0 w1 : World Mem) (vs : list Value) (message : string).
Hypothesis Hargs : once order args w0 vs w1.
Hypothesis Hfmt : format M vs = Some message.

Lemma stderr_print_emits (l : Level) :
  stderr_print order site (label l) M args w0
  = Normal tt (logged (join [entry l site M message]) w1).
Proof.
  rewrite stderr_print_run, (once_eval_args order args w0 vs w1 Hargs), Hfmt.
  unfold join, entry. simpl. rewrite !append_assoc, append_nil_r.
  reflexivity.
Qed.

Lemma panic_emits :
  panic order site M args w0
  = Terminated
      (logged (join [entry Panic site M message; record Panic site epitaph])
         w1).
Proof.
  rewrite panic_run, (once_eval_args order args w0 vs w1 Hargs), Hfmt.
  rewrite logged_logged. unfold join. simpl. rewrite append_nil_r.
  reflexivity.
Qed.

End Emission.

(** C8: every operation of the facility writes to the diagnostic stream
    only, and what it writes there are the records of its own call, each
    with one severity label, the file name and the line number of the
    call site.  In full: with the condition evaluated (where the operation
    tests one) and the message arguments evaluated (where the operation
    goes on to print), the state the call ends in is the state these
    evaluations reached with the standard output stream and the variables
    untouched and the records of [emitted] appended to the diagnostic
    stream: none when the message is not printed, one under the level of
    the operation for info, warn and error and their variants, and for the
    fatal operations one under Panic with the caller's message followed by
    one under Panic with the fixed message. *)
Theorem records_are_well_formed {Mem : Type} (order : ArgOrder)
    (site : CallSite) (NDEBUG : bool) (op : Operation)
    (cond : Prog Mem bool) (M : string) (args : list (Prog Mem Value))
    (w w0 w1 : World Mem) (c : bool) (vs : list Value) (message : string) :
  (if tests_condition NDEBUG op then cond w = Normal c w0 else w0 = w) ->
  (if runs_message NDEBUG op c
   then once order args w0 vs w1 /\ format M vs = Some message
   else w1 = w0) ->
  invoke order site NDEBUG op cond M args w
  = (if runs_message NDEBUG op c && negb (non_fatal op)
     then Terminated (logged (join (emitted NDEBUG op c site M message)) w1)
     else Normal tt (logged (join (emitted NDEBUG op c site M message)) w1))
  /\ out (logged (join (emitted NDEBUG op c site M message)) w1) = out w1
  /\ mem (logged (join (emitted NDEBUG op c site M message)) w1) = mem w1.
Proof.
  intros Hcond Hmsg.
  split; [|split; reflexivity].
  pose proof (stderr_print_emits order site M args w0 w1 vs message) as Hlog.
  pose proof (panic_emits order site M args w0 w1 vs message) as Hpanic.
  destruct op; destruct NDEBUG; simpl in Hcond, Hmsg;
    unfold invoke, emitted, dcheck, dinfo, dwarn, derror, dpanic, dinfo_if,
      dwarn_if, derror_if, dpanic_if, check, info_if, warn_if, error_if,
      panic_if, info, warn, error, unlikely, bind;
    try rewrite Hcond; try destruct c; simpl in Hmsg |- *;
    lazymatch type of Hmsg with
    | _ /\ _ =>
        destruct Hmsg as [Hargs Hfmt]; try subst w0;
        first [ apply (Hlog Hargs Hfmt Info) | apply (Hlog Hargs Hfmt Warn)
              | apply (Hlog Hargs Hfmt Error) | apply (Hpanic Hargs Hfmt) ]
    | _ = _ => subst; unfold ret; rewrite logged_nil; reflexivity
    end.
Qed.

Lemma records_are_well_formed_witness :
  invoke LeftToRight main_cpp false op_dcheck (bump_test false) "n=%d"
    [bump (VInt 3)] start
  = Terminated
      (mkWorld 2 ""
         ("[Panic] main.cpp:7 - n=3" ++ LF
            ++ "[Panic] main.cpp:7 - Program terminated due to the error above."
            ++ LF))
  /\ out (logged (join (emitted false op_dcheck false main_cpp "n=%d" "n=3"))
            (mkWorld 2 "" ""))
     = ""
  /\ mem (logged (join (emitted false op_dcheck false main_cpp "n=%d" "n=3"))
            (mkWorld 2 "" ""))
     = 2.
Proof.
  apply (records_are_well_formed LeftToRight main_cpp false op_dcheck
           (bump_test false) "n=%d" [bump (VInt 3)] start
           (mkWorld 1 "" "") (mkWorld 2 "" "") false [VInt 3] "n=3").
  - reflexivity.
  - split; [|reflexivity].
    eapply once_ltr; [reflexivity | apply once_nil].
Defined.

(** ** Statelessness of the non-fatal operations *)

Section Stateless.

Context {Mem : Type}.
Variable order : ArgOrder.
Variable site : CallSite.

Lemma uniform_ret : uniform (Mem := Mem) (ret tt) (Some "").
Proof.
  intros w. now rewrite logged_nil.
Qed.

Lemma uniform_stderr_print (l : Level) (M : string)
    (args : list (Prog Mem Value)) (vs : list Value) :
  Forall2 pure args vs ->
  uniform (stderr_print order site (label l) M args)
    (option_map (entry l site M) (format M vs)).
Proof.
  intros Hargs w.
  rewrite stderr_print_run, (eval_args_pure order args vs Hargs).
  destruct (format M vs); reflexivity.
Qed.

Lemma uniform_guard (cond : Prog Mem bool) (c : bool) (p : Prog Mem unit)
    (result : option string) :
  pure cond c ->
  uniform p result ->
  uniform (b <- cond ;; if b then p else ret tt)
    (if c then result else Some "").
Proof.
  intros Hcond Hp w. unfold bind. rewrite Hcond.
  destruct c; [apply Hp | apply uniform_ret].
Qed.

Lemma uniform_gate (NDEBUG : bool) (p : Prog Mem unit)
    (result : option string) :
  uniform p result ->
  uniform (if NDEBUG then ret tt else p) (if NDEBUG then Some "" else result).
Proof.
  destruct NDEBUG; [intros _; apply uniform_ret | auto].
Qed.

(** Invoked twice in a row, a uniform computation writes its text twice. *)
Lemma uniform_twice (p : Prog Mem unit) (result : option string) :
  uniform p result ->
  forall w,
    (p ;; p) w = match result with
                 | Some text => Normal tt (logged text (logged text w))
                 | None => Undefined
                 end.
Proof.
  intros Hp w. unfold bind. rewrite (Hp w).
  destruct result as [text|] eqn:E; [|reflexivity].
  rewrite (Hp (logged text w)). reflexivity.
Qed.

End Stateless.

(** C9: a non-fatal operation whose condition and arguments have no side
    effects behaves the same in every state: either the call is undefined
    everywhere, or everywhere it returns after appending one and the same
    text to the diagnostic stream and changing nothing else; invoked twice
    in a row it appends that text twice.  So the output depends on the
    operands and the call site only, and no call leaves anything behind
    that a later call could observe. *)
Theorem non_fatal_operations_are_stateless {Mem : Type} (order : ArgOrder)
    (site : CallSite) (NDEBUG : bool) (op : Operation)
    (cond : Prog Mem bool) (c : bool) (M : string)
    (args : list (Prog Mem Value)) (vs : list Value) :
  non_fatal op = true ->
  pure cond c ->
  Forall2 pure args vs ->
  exists result : option string,
    (forall w,
       invoke order site NDEBUG op cond M args w
       = match result with
         | Some text => Normal tt (logged text w)
         | None => Undefined
         end)
    /\ (forall w,
          (invoke order site NDEBUG op cond M args ;;
           invoke order site NDEBUG op cond M args) w
          = match result with
            | Some text => Normal tt (logged text (logged text w))
            | None => Undefined
            end).
Proof.
  intros Hop Hcond Hargs.
  pose proof (uniform_stderr_print order site Info M args vs Hargs) as Hi.
  pose proof (uniform_stderr_print order site Warn M args vs Hargs) as Hw.
  pose proof (uniform_stderr_print order site Error M args vs Hargs) as He.
  assert (H : exists result,
             uniform (invoke order site NDEBUG op cond M args) result).
  { destruct op; try discriminate Hop; simpl;
      unfold dinfo, dwarn, derror, dinfo_if, dwarn_if, derror_if,
        info_if, warn_if, error_if, unlikely;
      eexists;
      first [ exact Hi | exact Hw | exact He
            | apply uniform_guard; [exact Hcond|]; first [exact Hi | exact Hw | exact He]
            | apply uniform_gate; first [exact Hi | exact Hw | exact He]
            | apply uniform_gate; apply uniform_guard; [exact Hcond|];
              first [exact Hi | exact Hw | exact He] ]. }
  destruct H as [result H].
  exists result. split; [exact H | apply uniform_twice; exact H].
Qed.

Lemma non_fatal_operations_are_stateless_witness :
  exists result : option string,
    (forall w : World nat,
       invoke LeftToRight main_cpp false op_dwarn_if (ret true) "n=%d"
         [ret (VInt 3)] w
       = match result with
         | Some text => Normal tt (logged text w)
         | None => Undefined
         end)
    /\ (forall w : World nat,
          (invoke LeftToRight main_cpp false op_dwarn_if (ret true) "n=%d"
             [ret (VInt 3)] ;;
           invoke LeftToRight main_cpp false op_dwarn_if (ret true) "n=%d"
             [ret (VInt 3)]) w
          = match result with
            | Some text => Normal tt (logged text (logged text w))
            | None => Undefined
            end).
Proof.
  apply (non_fatal_operations_are_stateless LeftToRight main_cpp false
           op_dwarn_if (ret true) true "n=%d" [ret (VInt 3)] [VInt 3]).
  - reflexivity.
  - intros w. reflexivity.
  - constructor; [intros w; reflexivity | constructor].
Defined.

(** ** Evaluation of the message arguments *)

(** C10: a call to info, warn, error or panic evaluates each expression of
    its argument list exactly once: the state in which the entry is
    written is the one reached by running every argument expression one
    time, and the values printed are the ones those runs yielded.  The
    second record of panic takes no arguments, so panic evaluates them
    once as well. *)
Theorem arguments_are_evaluated_once {Mem : Type} (order : ArgOrder)
    (site : CallSite) (M : string) (args : list (Prog Mem Value))
    (w w1 : World Mem) (vs : list Value) :
  once order args w vs w1 ->
  info order site M args w
    = match format M vs with
      | Some message => Normal tt (logged (entry Info site M message) w1)
      | None => Undefined
      end
  /\ warn order site M args w
    = match format M vs with
      | Some message => Normal tt (logged (entry Warn site M message) w1)
      | None => Undefined
      end
  /\ error order site M args w
    = match format M vs with
      | Some message => Normal tt (logged (entry Error site M message) w1)
      | None => Undefined
      end
  /\ panic order site M args w
    = match format M vs with
      | Some message =>
          Terminated
            (logged (record Panic site epitaph)
               (logged (entry Panic site M message) w1))
      | None => Undefined
      end.
Proof.
  intros Hargs. apply once_eval_args in Hargs.
  rewrite info_run, warn_run, error_run, panic_run, Hargs.
  repeat split.
Qed.

Lemma arguments_are_evaluated_once_witness :
  info RightToLeft main_cpp "%d,%s"
    [bump_fst (VInt 1); bump_snd (VStr "two")] start2
    = Normal tt (mkWorld (1, 1) "" ("[Info] main.cpp:7 - 1,two" ++ LF))
  /\ warn RightToLeft main_cpp "%d,%s"
       [bump_fst (VInt 1); bump_snd (VStr "two")] start2
    = Normal tt (mkWorld (1, 1) "" ("[Warn] main.cpp:7 - 1,two" ++ LF))
  /\ error RightToLeft main_cpp "%d,%s"
       [bump_fst (VInt 1); bump_snd (VStr "two")] start2
    = Normal tt (mkWorld (1, 1) "" ("[Error] main.cpp:7 - 1,two" ++ LF))
  /\ panic RightToLeft main_cpp "%d,%s"
       [bump_fst (VInt 1); bump_snd (VStr "two")] start2
    = Terminated
        (mkWorld (1, 1) ""
           ("[Panic] main.cpp:7 - 1,two" ++ LF
              ++ "[Panic] main.cpp:7 - Program terminated due to the error above."
              ++ LF)).
Proof.
  apply (arguments_are_evaluated_once RightToLeft main_cpp "%d,%s"
           [bump_fst (VInt 1); bump_snd (VStr "two")] start2
           (mkWorld (1, 1) "" "") [VInt 1; VStr "two"]).
  eapply once_rtl.
  - eapply once_rtl; [apply once_nil | reflexivity].
  - reflexivity.
Defined.

(** * Further properties of the macros *)

(** ** Fatal paths *)

(** X1: panic never returns to its caller, whatever its message and
    arguments are and whatever they do; hence what follows a call to panic
    has no influence on the behaviour of the program. *)
Theorem panic_never_returns {Mem : Type} (order : ArgOrder)
    (site : CallSite) (M : string) (args : list (Prog Mem Value))
    (w : World Mem) :
  (forall u w', panic order site M args w <> Normal u w')
  /\ (forall (B : Type) (k k' : unit -> Prog Mem B),
        bind (panic order site M args) k w
        = bind (panic order site M args) k' w).
Proof.
  assert (H : forall u w', panic order site M args w <> Normal u w').
  { intros u w'. rewrite panic_run.
    destruct (eval_args order args w) as [vs w1|w1|]; try discriminate.
    destruct (format M vs); discriminate. }
  split; [exact H|].
  intros B k k'. unfold bind.
  destruct (panic order site M args w) as [u w'|w'|];
    [exfalso; exact (H u w' eq_refl) | reflexivity | reflexivity].
Qed.

(** X2: when check returns, its condition has evaluated to true, and the
    state is the one the condition left: nothing was written and no
    message argument was evaluated. *)
Theorem check_postcondition {Mem : Type} (order : ArgOrder)
    (site : CallSite) (cond : Prog Mem bool) (M : string)
    (args : list (Prog Mem Value)) (w w' : World Mem) (u : unit) :
  check order site cond M args w = Normal u w' ->
  cond w = Normal true w'.
Proof.
  unfold check, bind, unlikely.
  destruct (cond w) as [b w1|w1|]; try discriminate.
  destruct b; simpl.
  - unfold ret. intros H. inversion H. reflexivity.
  - intros H. exfalso.
    exact (proj1 (panic_never_returns order site M args w1) u w' H).
Qed.

Lemma check_postcondition_witness :
  bump_test true start = Normal true (mkWorld 1 "" "").
Proof.
  apply (check_postcondition LeftToRight main_cpp (bump_test true)
           "n=%d" [bump (VInt 1)] start (mkWorld 1 "" "") tt).
  reflexivity.
Defined.

(** X3: when panic_if returns, its condition has evaluated to false, and
    the state is the one the condition left. *)
Theorem panic_if_postcondition {Mem : Type} (order : ArgOrder)
    (site : CallSite) (cond : Prog Mem bool) (M : string)
    (args : list (Prog Mem Value)) (w w' : World Mem) (u : unit) :
  panic_if order site cond M args w = Normal u w' ->
  cond w = Normal false w'.
Proof.
  unfold panic_if, bind, unlikely.
  destruct (cond w) as [b w1|w1|]; try discriminate.
  destruct b.
  - intros H. exfalso.
    exact (proj1 (panic_never_returns order site M args w1) u w' H).
  - unfold ret. intros H. inversion H. reflexivity.
Qed.

Lemma panic_if_postcondition_witness :
  bump_test false start = Normal false (mkWorld 1 "" "").
Proof.
  apply (panic_if_postcondition RightToLeft main_cpp (bump_test false)
           "n=%d" [bump (VInt 1)] start (mkWorld 1 "" "") tt).
  reflexivity.
Defined.

(** X4: check and panic_if are each other's mirror image: checking the
    negation of a condition is panic_if on the condition, and checking a
    condition is panic_if on its negation, for every condition (also one
    that has side effects, terminates the process or is undefined). *)
Theorem check_is_negated_panic_if {Mem : Type} (order : ArgOrder)
    (site : CallSite) (cond : Prog Mem bool) (M : string)
    (args : list (Prog Mem Value)) (w : World Mem) :
  check order site (negate cond) M args w
    = panic_if order site cond M args w
  /\ check order site cond M args w
    = panic_if order site (negate cond) M args w.
Proof.
  unfold check, panic_if, negate, unlikely, bind, ret.
  destruct (cond w) as [b w1|w1|]; [destruct b|..]; split; reflexivity.
Qed.

(** ** Failing operands *)

Lemma stderr_print_terminates_iff {Mem : Type} (order : ArgOrder)
    (site : CallSite) (level M : string) (args : list (Prog Mem Value))
    (w w' : World Mem) :
  stderr_print order site level M args w = Terminated w'
  <-> eval_args order args w = Terminated w'.
Proof.
  rewrite stderr_print_run.
  destruct (eval_args order args w) as [vs w1|w1|].
  - destruct (format M vs); split; intros H; discriminate H.
  - split; intros H; inversion H; reflexivity.
  - split; intros H; discriminate H.
Qed.

(** X5: info, warn and error end the process exactly when the evaluation
    of their arguments does, and then in the state in which that
    evaluation stopped: no record is written for the call. *)
Theorem log_terminates_iff_arguments_do {Mem : Type} (order : ArgOrder)
    (site : CallSite) (M : string) (args : list (Prog Mem Value))
    (w w' : World Mem) :
  (info order site M args w = Terminated w'
     <-> eval_args order args w = Terminated w')
  /\ (warn order site M args w = Terminated w'
        <-> eval_args order args w = Terminated w')
  /\ (error order site M args w = Terminated w'
        <-> eval_args order args w = Terminated w').
Proof.
  split; [|split]; apply stderr_print_terminates_iff.
Qed.

Lemma log_terminates_iff_arguments_do_witness :
  info LeftToRight main_cpp "n=%d" [failing] start
  = Terminated
      (mkWorld 0 ""
         ("[Panic] util.cpp:3 - inner" ++ LF
            ++ "[Panic] util.cpp:3 - Program terminated due to the error above."
            ++ LF)).
Proof.
  apply (log_terminates_iff_arguments_do LeftToRight main_cpp "n=%d"
           [failing] start).
  reflexivity.
Defined.

(** ** Order of evaluation *)

Lemma eval_args_readonly {Mem : Type} (args : list (Prog Mem Value))
    (w : World Mem) :
  Forall readonly args ->
  exists vs,
    eval_args LeftToRight args w = Normal vs w
    /\ eval_args RightToLeft args w = Normal vs w.
Proof.
  induction 1 as [|a rest Ha _ IH].
  - exists []. split; reflexivity.
  - destruct IH as (vs & Hl & Hr). destruct (Ha w) as [v Hv].
    exists (v :: vs). simpl. unfold bind.
    rewrite Hv, Hl, Hr, Hv. split; reflexivity.
Qed.

Lemma stderr_print_order {Mem : Type} (site : CallSite) (level M : string)
    (args : list (Prog Mem Value)) (w : World Mem) :
  Forall readonly args ->
  stderr_print LeftToRight site level M args w
  = stderr_print RightToLeft site level M args w.
Proof.
  intros Hargs.
  destruct (eval_args_readonly args w Hargs) as (vs & Hl & Hr).
  rewrite !stderr_print_run, Hl, Hr.
  reflexivity.
Qed.

Lemma panic_order {Mem : Type} (site : CallSite) (M : string)
    (args : list (Prog Mem Value)) (w : World Mem) :
  Forall readonly args ->
  panic LeftToRight site M args w = panic RightToLeft site M args w.
Proof.
  intros Hargs.
  destruct (eval_args_readonly args w Hargs) as (vs & Hl & Hr).
  rewrite !panic_run, Hl, Hr.
  reflexivity.
Qed.

(** X6: when the message arguments have no side effects (each of them
    yields a value, which may depend on the state it reads, and leaves the
    state as it is), no operation of the header depends on the order in
    which the compiler evaluates the arguments of a call; the condition
    may have any effect, since it is always evaluated before the
    arguments. *)
Theorem evaluation_order_is_irrelevant {Mem : Type} (site : CallSite)
    (NDEBUG : bool) (op : Operation) (cond : Prog Mem bool) (M : string)
    (args : list (Prog Mem Value)) (w : World Mem) :
  Forall readonly args ->
  invoke LeftToRight site NDEBUG op cond M args w
  = invoke RightToLeft site NDEBUG op cond M args w.
Proof.
  intros Hargs.
  pose proof (fun level w => stderr_print_order site level M args w Hargs)
    as Hlog.
  pose proof (fun w => panic_order site M args w Hargs) as Hpanic.
  destruct op; simpl;
    unfold dcheck, dinfo, dwarn, derror, dpanic, dinfo_if, dwarn_if,
      derror_if, dpanic_if, check, info_if, warn_if, error_if, panic_if,
      info, warn, error, unlikely, bind;
    destruct NDEBUG; try reflexivity;
    try apply Hlog; try apply Hpanic;
    destruct (cond w) as [b w1|w1|]; try reflexivity;
    destruct b; simpl; try reflexivity;
    first [apply Hlog | apply Hpanic].
Qed.

Lemma evaluation_order_is_irrelevant_witness :
  invoke LeftToRight main_cpp false op_dcheck (bump_test false) "%d,%d"
    [counter; counter] start
  = invoke RightToLeft main_cpp false op_dcheck (bump_test false) "%d,%d"
      [counter; counter] start.
Proof.
  apply (evaluation_order_is_irrelevant main_cpp false op_dcheck
           (bump_test false) "%d,%d" [counter; counter] start).
  repeat constructor; intros w; exists (VInt (Z.of_nat (mem w)));
    reflexivity.
Defined.

(** ** What the operations leave alone *)

Section Frame.

Context {Mem X : Type}.
Variable obs : World Mem -> X.
Hypothesis obs_logged : forall text w, obs (logged text w) = obs w.
Variable order : ArgOrder.
Variable site : CallSite.

Lemma keeps_ret {A : Type} (a : A) : keeps obs (ret (Mem := Mem) a).
Proof. intros w. reflexivity. Qed.

Lemma keeps_bind {A B : Type} (p : Prog Mem A) (k : A -> Prog Mem B) :
  keeps obs p -> (forall a, keeps obs (k a)) -> keeps obs (bind p k).
Proof.
  intros Hp Hk w. unfold bind. specialize (Hp w).
  destruct (p w) as [a w1|w1|]; auto.
  specialize (Hk a w1).
  destruct (k a w1) as [b w2|w2|]; auto; congruence.
Qed.

Lemma keeps_if {A : Type} (b : bool) (p q : Prog Mem A) :
  keeps obs p -> keeps obs q -> keeps obs (if b then p else q).
Proof. destruct b; auto. Qed.

Lemma keeps_eval_args (args : list (Prog Mem Value)) :
  Forall (keeps obs) args -> keeps obs (eval_args order args).
Proof.
  induction 1 as [|a rest Ha _ IH]; [apply keeps_ret|].
  simpl. destruct order;
    repeat (apply keeps_bind; auto; intros);
    apply keeps_ret.
Qed.

Lemma keeps_stderr_print (level M : string) (args : list (Prog Mem Value)) :
  Forall (keeps obs) args -> keeps obs (stderr_print order site level M args).
Proof.
  intros Hargs w. rewrite stderr_print_run.
  pose proof (keeps_eval_args args Hargs w) as He.
  destruct (eval_args order args w) as [vs w1|w1|]; auto.
  destruct (format M vs); auto.
  rewrite obs_logged. exact He.
Qed.

Lemma keeps_panic (M : string) (args : list (Prog Mem Value)) :
  Forall (keeps obs) args -> keeps obs (panic order site M args).
Proof.
  intros Hargs. unfold panic.
  apply keeps_bind; [apply keeps_stderr_print; exact Hargs|].
  intros _. apply keeps_bind; [apply keeps_stderr_print; constructor|].
  intros _ w. reflexivity.
Qed.

Lemma keeps_invoke (NDEBUG : bool) (op : Operation) (cond : Prog Mem bool)
    (M : string) (args : list (Prog Mem Value)) :
  keeps obs cond -> Forall (keeps obs) args ->
  keeps obs (invoke order site NDEBUG op cond M args).
Proof.
  intros Hcond Hargs.
  pose proof (fun level => keeps_stderr_print level M args Hargs) as Hlog.
  pose proof (keeps_panic M args Hargs) as Hpanic.
  destruct op; simpl;
    unfold dcheck, dinfo, dwarn, derror, dpanic, dinfo_if, dwarn_if,
      derror_if, dpanic_if, check, info_if, warn_if, error_if, panic_if,
      info, warn, error;
    repeat first [ apply keeps_if | apply keeps_ret | apply Hlog
                 | exact Hpanic
                 | apply keeps_bind; [exact Hcond | intros ?] ].
Qed.

End Frame.

(** X7: the operations of the header change nothing but the diagnostic
    stream.  Whatever can be observed of the state without looking at that
    stream (the program's variables, the standard output stream) and is
    left alone by the condition and by the message arguments is the same
    after the call as before, whether the call returns or ends the
    process. *)
Theorem operations_only_touch_stderr {Mem X : Type} (obs : World Mem -> X)
    (order : ArgOrder) (site : CallSite) (NDEBUG : bool) (op : Operation)
    (cond : Prog Mem bool) (M : string) (args : list (Prog Mem Value))
    (w w' : World Mem) :
  (forall text v, obs (logged text v) = obs v) ->
  keeps obs cond ->
  Forall (keeps obs) args ->
  invoke order site NDEBUG op cond M args w = Normal tt w'
  \/ invoke order site NDEBUG op cond M args w = Terminated w' ->
  obs w' = obs w.
Proof.
  intros Hobs Hcond Hargs Hrun.
  pose proof (keeps_invoke obs Hobs order site NDEBUG op cond M args
                Hcond Hargs w) as H.
  destruct Hrun as [Hrun|Hrun]; rewrite Hrun in H; exact H.
Qed.

Lemma operations_only_touch_stderr_witness :
  mem (mkWorld 5 "out"
         ("[Panic] main.cpp:7 - n=3" ++ LF
            ++ "[Panic] main.cpp:7 - Program terminated due to the error above."
            ++ LF))
  = mem (mkWorld 5 "out" "").
Proof.
  apply (operations_only_touch_stderr mem LeftToRight main_cpp false
           op_panic_if (ret true) "n=%d" [ret (VInt 3)]
           (mkWorld 5 "out" "")).
  - intros text v. reflexivity.
  - intros v. reflexivity.
  - repeat constructor.
  - right. reflexivity.
Defined.

(** ** Templates and their arguments *)

Lemma conversion_surplus (c : ascii) (k : list Value -> option string)
    (extra : list Value) :
  (forall args s, k args = Some s -> k (args ++ extra)%list = Some s) ->
  forall args s,
    conversion c k args = Some s ->
    conversion c k (args ++ extra)%list = Some s.
Proof.
  intros Hk args s. unfold conversion.
  destruct (Ascii.eqb c "%").
  { destruct (k args) as [t|] eqn:E; [|discriminate].
    rewrite (Hk args t E). auto. }
  destruct (Ascii.eqb c "d" || Ascii.eqb c "i").
  { destruct args as [|[z|x] args']; try discriminate. simpl.
    destruct (k args') as [t|] eqn:E; [|discriminate].
    rewrite (Hk args' t E). auto. }
  destruct (Ascii.eqb c "s").
  { destruct args as [|[z|x] args']; try discriminate. simpl.
    destruct (k args') as [t|] eqn:E; [|discriminate].
    rewrite (Hk args' t E). auto. }
  destruct (Ascii.eqb c "c"); [|discriminate].
  destruct args as [|[z|x] args']; try discriminate. simpl.
  destruct (k args') as [t|] eqn:E; [|discriminate].
  rewrite (Hk args' t E). auto.
Qed.

Lemma format_from_surplus (f : string) (extra : list Value) :
  forall pct args s,
    format_from pct f args = Some s ->
    format_from pct f (args ++ extra)%list = Some s.
Proof.
  induction f as [|c r IH]; intros pct args s.
  - destruct pct; simpl; auto.
  - simpl. destruct (Ascii.eqb c "000"); [destruct pct; auto|].
    destruct pct.
    + apply conversion_surplus. intros a t. apply IH.
    + destruct (Ascii.eqb c "%"); [apply IH|].
      destruct (format_from false r args) as [t|] eqn:E; [|discriminate].
      rewrite (IH false args t E). auto.
Qed.

Lemma format_plain (M : string) (vs : list Value) :
  plain M = true -> has_nul M = false -> format M vs = Some M.
Proof.
  unfold format. induction M as [|c r IH]; simpl; [reflexivity|].
  intros H Hn. apply andb_true_iff in H. destruct H as [Hc Hr].
  apply orb_false_iff in Hn. destruct Hn as [Hz Hn].
  apply negb_true_iff in Hc. rewrite Hz, Hc, (IH Hr Hn). reflexivity.
Qed.

(** X8: arguments beyond those the format string asks for are evaluated
    like the others, but leave no trace in the record: if the first
    values already satisfy the format string, the record is the one they
    give, written in the state reached after evaluating all arguments. *)
Theorem surplus_arguments_are_dropped {Mem : Type} (order : ArgOrder)
    (site : CallSite) (M : string) (args : list (Prog Mem Value))
    (w w1 : World Mem) (vs extra : list Value) (message : string) :
  once order args w (vs ++ extra)%list w1 ->
  format M vs = Some message ->
  info order site M args w = Normal tt (logged (entry Info site M message) w1)
  /\ warn order site M args w
     = Normal tt (logged (entry Warn site M message) w1)
  /\ error order site M args w
     = Normal tt (logged (entry Error site M message) w1)
  /\ panic order site M args w
     = Terminated
         (logged (entry Panic site M message ++ record Panic site epitaph) w1).
Proof.
  intros Hargs Hfmt. apply once_eval_args in Hargs.
  apply (format_from_surplus M extra) in Hfmt. fold (format M (vs ++ extra)%list) in Hfmt.
  rewrite info_run, warn_run, error_run, panic_run, Hargs, Hfmt,
    logged_logged.
  repeat split.
Qed.

Lemma surplus_arguments_are_dropped_witness :
  info LeftToRight main_cpp "n=%d" [bump (VInt 1); bump (VInt 2)] start
    = Normal tt (mkWorld 2 "" ("[Info] main.cpp:7 - n=1" ++ LF))
  /\ warn LeftToRight main_cpp "n=%d" [bump (VInt 1); bump (VInt 2)] start
    = Normal tt (mkWorld 2 "" ("[Warn] main.cpp:7 - n=1" ++ LF))
  /\ error LeftToRight main_cpp "n=%d" [bump (VInt 1); bump (VInt 2)] start
    = Normal tt (mkWorld 2 "" ("[Error] main.cpp:7 - n=1" ++ LF))
  /\ panic LeftToRight main_cpp "n=%d" [bump (VInt 1); bump (VInt 2)] start
    = Terminated
        (mkWorld 2 ""
           ("[Panic] main.cpp:7 - n=1" ++ LF
              ++ "[Panic] main.cpp:7 - Program terminated due to the error above."
              ++ LF)).
Proof.
  apply (surplus_arguments_are_dropped LeftToRight main_cpp "n=%d"
           [bump (VInt 1); bump (VInt 2)] start (mkWorld 2 "" "")
           [VInt 1] [VInt 2] "n=1").
  - eapply once_ltr; [reflexivity|].
    eapply once_ltr; [reflexivity | apply once_nil].
  - reflexivity.
Defined.

(** X9: stderr_print hands the level, the file name and the line number
    to fprintf as arguments, not as part of the format string: whatever
    characters the level and the file name are made of (percent signs
    included), they appear unchanged in the entry, and the conversions of
    the message consume the caller's arguments only.  The entry ends with
    the line feed unless the message literal holds a NUL character. *)
Theorem stderr_print_level_and_file_verbatim {Mem : Type}
    (order : ArgOrder) (site : CallSite) (level M : string)
    (args : list (Prog Mem Value)) (w w1 : World Mem) (vs : list Value)
    (message : string) :
  once order args w vs w1 ->
  format M vs = Some message ->
  stderr_print order site level M args w
  = Normal tt
      (logged ("[" ++ level ++ "] " ++ __FILE__ site ++ ":"
                   ++ decimal (Z.of_N (__LINE__ site)) ++ " - "
                   ++ message ++ (if has_nul M then "" else LF)) w1).
Proof.
  intros Hargs Hfmt. apply once_eval_args in Hargs.
  rewrite stderr_print_run, Hargs, Hfmt. reflexivity.
Qed.

Lemma stderr_print_level_and_file_verbatim_witness :
  stderr_print LeftToRight (mkCallSite "100%d.cpp" 12) "%s" "n=%d"
    [bump (VInt 5)] start
  = Normal tt (mkWorld 1 "" ("[%s] 100%d.cpp:12 - n=5" ++ LF)).
Proof.
  apply (stderr_print_level_and_file_verbatim LeftToRight
           (mkCallSite "100%d.cpp" 12) "%s" "n=%d" [bump (VInt 5)] start
           (mkWorld 1 "" "") [VInt 5] "n=5").
  - eapply once_ltr; [reflexivity | apply once_nil].
  - reflexivity.
Defined.

(** X10: a message that holds neither a percent sign nor a NUL character
    is printed as it stands by info, warn and error, whatever arguments
    come with it; such a call is never undefined because of its format
    string. *)
Theorem plain_message_is_verbatim {Mem : Type} (order : ArgOrder)
    (site : CallSite) (M : string) (args : list (Prog Mem Value))
    (w w1 : World Mem) (vs : list Value) :
  plain M = true ->
  has_nul M = false ->
  once order args w vs w1 ->
  info order site M args w = Normal tt (logged (record Info site M) w1)
  /\ warn order site M args w = Normal tt (logged (record Warn site M) w1)
  /\ error order site M args w = Normal tt (logged (record Error site M) w1).
Proof.
  intros Hplain Hnul Hargs. apply once_eval_args in Hargs.
  rewrite info_run, warn_run, error_run, Hargs,
    (format_plain M vs Hplain Hnul), !(entry_record _ site M M Hnul).
  repeat split.
Qed.

Lemma plain_message_is_verbatim_witness :
  info RightToLeft main_cpp "starting up" [bump (VStr "unused")] start
    = Normal tt (mkWorld 1 "" ("[Info] main.cpp:7 - starting up" ++ LF))
  /\ warn RightToLeft main_cpp "starting up" [bump (VStr "unused")] start
    = Normal tt (mkWorld 1 "" ("[Warn] main.cpp:7 - starting up" ++ LF))
  /\ error RightToLeft main_cpp "starting up" [bump (VStr "unused")] start
    = Normal tt (mkWorld 1 "" ("[Error] main.cpp:7 - starting up" ++ LF)).
Proof.
  apply (plain_message_is_verbatim RightToLeft main_cpp "starting up"
           [bump (VStr "unused")] start (mkWorld 1 "" "") [VStr "unused"]).
  - reflexivity.
  - reflexivity.
  - eapply once_rtl; [apply once_nil | reflexivity].
Defined.

(** ** Non-fatal operations do not end the process *)

Section Harmless.

Context {Mem : Type}.
Variable order : ArgOrder.
Variable site : CallSite.

Lemma harmless_ret {A : Type} (a : A) : harmless (ret (Mem := Mem) a).
Proof. intros w w'. discriminate. Qed.

Lemma harmless_bind {A B : Type} (p : Prog Mem A) (k : A -> Prog Mem B) :
  harmless p -> (forall a, harmless (k a)) -> harmless (bind p k).
Proof.
  intros Hp Hk w w'. unfold bind.
  destruct (p w) as [a w1|w1|] eqn:E.
  - apply Hk.
  - exfalso. exact (Hp w w1 E).
  - discriminate.
Qed.

Lemma harmless_if {A : Type} (b : bool) (p q : Prog Mem A) :
  harmless p -> harmless q -> harmless (if b then p else q).
Proof. destruct b; auto. Qed.

Lemma harmless_eval_args (args : list (Prog Mem Value)) :
  Forall harmless args -> harmless (eval_args order args).
Proof.
  induction 1 as [|a rest Ha _ IH]; [apply harmless_ret|].
  simpl. destruct order;
    repeat (apply harmless_bind; auto; intros);
    apply harmless_ret.
Qed.

Lemma harmless_stderr_print (level M : string)
    (args : list (Prog Mem Value)) :
  Forall harmless args -> harmless (stderr_print order site level M args).
Proof.
  intros Hargs w w'. rewrite stderr_print_run.
  pose proof (harmless_eval_args args Hargs w) as He.
  destruct (eval_args order args w) as [vs w1|w1|].
  - destruct (format M vs); discriminate.
  - exfalso. exact (He w1 eq_refl).
  - discriminate.
Qed.

End Harmless.

(** X11: a non-fatal operation (info, warn, error, their _if forms and
    the d-prefixed forms of these) has no path of its own that ends the
    process: when neither the condition nor any message argument can end
    the process and the call is not undefined (its operands are defined
    and its format string, made of the conversions [%d], [%i], [%s], [%c]
    and [%%], matches the arguments), the call returns, in debug and in
    release configuration. *)
Theorem non_fatal_operations_do_not_terminate {Mem : Type}
    (order : ArgOrder) (site : CallSite) (NDEBUG : bool) (op : Operation)
    (cond : Prog Mem bool) (M : string) (args : list (Prog Mem Value))
    (w : World Mem) :
  non_fatal op = true ->
  harmless cond ->
  Forall harmless args ->
  invoke order site NDEBUG op cond M args w <> Undefined ->
  exists w', invoke order site NDEBUG op cond M args w = Normal tt w'.
Proof.
  intros Hop Hcond Hargs Hdef.
  pose proof (fun level => harmless_stderr_print order site level M args Hargs)
    as Hlog.
  assert (H : harmless (invoke order site NDEBUG op cond M args)).
  { destruct op; try discriminate Hop; simpl;
      unfold dinfo, dwarn, derror, dinfo_if, dwarn_if, derror_if,
        info_if, warn_if, error_if, info, warn, error;
      repeat first [ apply harmless_if | apply harmless_ret | apply Hlog
                   | apply harmless_bind; [exact Hcond | intros ?] ]. }
  specialize (H w).
  destruct (invoke order site NDEBUG op cond M args w) as [[] w'|w'|].
  - exists w'. reflexivity.
  - exfalso. exact (H w' eq_refl).
  - exfalso. exact (Hdef eq_refl).
Qed.

Lemma non_fatal_operations_do_not_terminate_witness :
  exists w',
    invoke LeftToRight main_cpp false op_derror_if (bump_test true) "n=%d"
      [bump (VInt 3)] start
    = Normal tt w'.
Proof.
  apply (non_fatal_operations_do_not_terminate LeftToRight main_cpp false
           op_derror_if (bump_test true) "n=%d" [bump (VInt 3)] start).
  - reflexivity.
  - intros w w'. discriminate.
  - constructor; [intros w w'; discriminate | constructor].
  - discriminate.
Defined.

(** ** A NUL character in the message *)

Lemma conversion_ext (c : ascii) (k k' : list Value -> option string) :
  (forall args, k' args = k args) ->
  forall args, conversion c k' args = conversion c k args.
Proof.
  intros Hk args. unfold conversion.
  destruct (Ascii.eqb c "%"); [now rewrite Hk|].
  destruct (Ascii.eqb c "d" || Ascii.eqb c "i").
  { destruct args as [|[z|s] args']; try reflexivity. now rewrite Hk. }
  destruct (Ascii.eqb c "s").
  { destruct args as [|[z|s] args']; try reflexivity. now rewrite Hk. }
  destruct (Ascii.eqb c "c"); [|reflexivity].
  destruct args as [|[z|s] args']; try reflexivity. now rewrite Hk.
Qed.

Lemma format_from_nul (f back : string) :
  forall pct args,
    format_from pct (f ++ String "000" back) args = format_from pct f args.
Proof.
  induction f as [|c r IH]; intros pct args.
  - destruct pct; reflexivity.
  - simpl. destruct (Ascii.eqb c "000"); [reflexivity|].
    destruct pct.
    + apply conversion_ext. intros a. apply IH.
    + destruct (Ascii.eqb c "%"); [apply IH | now rewrite IH].
Qed.

Lemma has_nul_app (f back : string) :
  has_nul (f ++ String "000" back) = true.
Proof.
  induction f as [|c r IH]; simpl; [reflexivity|].
  rewrite IH. apply orb_true_r.
Qed.

(** X12: a message literal that holds a NUL character is cut there: info,
    warn and error print the prefix and what the part of the message
    before the NUL formats to, and neither what follows the NUL nor the
    line feed that the macro pastes after the message is written. *)
Theorem message_is_cut_at_nul {Mem : Type} (order : ArgOrder)
    (site : CallSite) (front back : string) (args : list (Prog Mem Value))
    (w w1 : World Mem) (vs : list Value) (message : string) :
  once order args w vs w1 ->
  format front vs = Some message ->
  info order site (front ++ String "000" back) args w
    = Normal tt
        (logged ("[Info] " ++ __FILE__ site ++ ":"
                   ++ decimal (Z.of_N (__LINE__ site)) ++ " - " ++ message)
           w1)
  /\ warn order site (front ++ String "000" back) args w
    = Normal tt
        (logged ("[Warn] " ++ __FILE__ site ++ ":"
                   ++ decimal (Z.of_N (__LINE__ site)) ++ " - " ++ message)
           w1)
  /\ error order site (front ++ String "000" back) args w
    = Normal tt
        (logged ("[Error] " ++ __FILE__ site ++ ":"
                   ++ decimal (Z.of_N (__LINE__ site)) ++ " - " ++ message)
           w1).
Proof.
  intros Hargs Hfmt. apply once_eval_args in Hargs.
  rewrite info_run, warn_run, error_run, Hargs.
  unfold format in *. rewrite format_from_nul, Hfmt.
  unfold entry. rewrite has_nul_app, append_nil_r.
  repeat split.
Qed.

Lemma message_is_cut_at_nul_witness :
  info LeftToRight main_cpp ("a" ++ String "000" "b") [] start
    = Normal tt (mkWorld 0 "" "[Info] main.cpp:7 - a")
  /\ warn LeftToRight main_cpp ("a" ++ String "000" "b") [] start
    = Normal tt (mkWorld 0 "" "[Warn] main.cpp:7 - a")
  /\ error LeftToRight main_cpp ("a" ++ String "000" "b") [] start
    = Normal tt (mkWorld 0 "" "[Error] main.cpp:7 - a").
Proof.
  apply (message_is_cut_at_nul LeftToRight main_cpp "a" "b" [] start start
           [] "a").
  - apply once_nil.
  - reflexivity.
Defined.
